(** * Tibero dialect implementation of the migration DDL layer

    A shallow embedding of [alembic/ddl/tibero.py]: the [TiberoImpl]
    capability profile with its execution adapter, and the per-operation
    [visit_*] rendering rules registered for the "tibero" dialect. *)

From Stdlib Require Import String List Bool.
From stdpp Require Import base decidable option list gmap strings.

(** ** Type synonym classes

    [type_synonyms] is a Python tuple of sets of strings: an ordered
    sequence of finite sets. *)

Module TypeSynonyms.

(** The three classes [TiberoImpl] appends, lines 39-41. *)
Definition tibero_classes : list (gset string) :=
  [ {[ "VARCHAR"; "VARCHAR2" ]};
    {[ "BIGINT"; "INTEGER"; "SMALLINT"; "DECIMAL"; "NUMERIC"; "NUMBER" ]};
    {[ "DOUBLE"; "FLOAT"; "DOUBLE_PRECISION" ]} ].

(** [type_synonyms = DefaultImpl.type_synonyms + (...)].  The inherited tuple
    is declared by [DefaultImpl], outside this file, so it is an argument. *)
Definition type_synonyms (default_type_synonyms : list (gset string))
  : list (gset string) :=
  default_type_synonyms ++ tibero_classes.

(** Every name occurring in one of the dialect-specific classes. *)
Definition tibero_names : gset string := ⋃ tibero_classes.

(** No type name appears in two distinct entries of the tuple. *)
Definition pairwise_disjoint (classes : list (gset string)) : Prop :=
  ∀ i j X Y, i ≠ j → classes !! i = Some X → classes !! j = Some Y → X ## Y.

(** The same check as a boolean function over the entries. *)
Fixpoint pairwise_disjointb (classes : list (gset string)) : bool :=
  match classes with
  | [] => true
  | X :: rest =>
      forallb (fun Y => bool_decide (X ## Y)) rest && pairwise_disjointb rest
  end.

(** Modelled from the spec: the resolver [equivalent(a, b, profile)] lives in
    the generic implementation, outside this file.  "Returns true iff
    [a == b], or both [a] and [b] appear in the same entry of
    [profile.type_synonym_classes]."  The profile is represented by its
    [type_synonym_classes] component, the only one the resolver reads. *)
Definition equivalent (a b : string) (type_synonym_classes : list (gset string))
  : bool :=
  bool_decide (a = b)
  || existsb (fun batch => bool_decide (a ∈ batch) && bool_decide (b ∈ batch))
       type_synonym_classes.

End TypeSynonyms.

(** ** Execution adapter: [TiberoImpl] *)

Module Impl.

(** Class-level attributes of [TiberoImpl], lines 34-37 and 43. *)
Definition __dialect__ : string := "tibero".
Definition class_transactional_ddl : bool := false.
Definition class_batch_separator : string := "/".
Definition class_command_terminator : string := "".
Definition identity_attrs_ignore : list string := [].

(** Instance state.  [output_buffer] holds the texts written in script mode,
    one entry per write; [connection] holds the statements the live
    connection was sent, and [cursor] is the connection's answer to a
    statement given what it was sent before (rows, a row count or the error
    it raises: the adapter passes it on untouched). *)
Record TiberoImpl (CursorResult : Type) := mkImpl {
  as_sql : bool;
  transactional_ddl : bool;
  batch_separator : string;
  command_terminator : string;
  context_opts : gmap string string;
  output_buffer : list string;
  connection : list string;
  cursor : list string → string → CursorResult
}.

Arguments mkImpl {CursorResult}.
Arguments as_sql {CursorResult}.
Arguments transactional_ddl {CursorResult}.
Arguments batch_separator {CursorResult}.
Arguments command_terminator {CursorResult}.
Arguments context_opts {CursorResult}.
Arguments output_buffer {CursorResult}.
Arguments connection {CursorResult}.
Arguments cursor {CursorResult}.

Section Adapter.
Context {CursorResult : Type}.
Implicit Types self : TiberoImpl CursorResult.

Definition set_batch_separator (sep : string) self : TiberoImpl CursorResult :=
  mkImpl (as_sql self) (transactional_ddl self) sep (command_terminator self)
    (context_opts self) (output_buffer self) (connection self) (cursor self).

Definition set_output_buffer (buf : list string) self : TiberoImpl CursorResult :=
  mkImpl (as_sql self) (transactional_ddl self) (batch_separator self)
    (command_terminator self) (context_opts self) buf (connection self)
    (cursor self).

Definition set_connection (log : list string) self : TiberoImpl CursorResult :=
  mkImpl (as_sql self) (transactional_ddl self) (batch_separator self)
    (command_terminator self) (context_opts self) (output_buffer self) log
    (cursor self).

(** Modelled from the spec: [DefaultImpl.__init__] is outside this file.  The
    profile is "constructed once per migration run" from the execution mode,
    the connection and the context options; the class-level attributes give
    the remaining fields, the output buffer starts empty and nothing has been
    sent to the connection. *)
Definition DefaultImpl__init__ (as_sql : bool)
    (cursor : list string → string → CursorResult)
    (context_opts : gmap string string) : TiberoImpl CursorResult :=
  mkImpl as_sql class_transactional_ddl class_batch_separator
    class_command_terminator context_opts [] [] cursor.

(** [TiberoImpl.__init__], lines 45-49: [dict.get(key, default)]. *)
Definition __init__ (as_sql : bool)
    (cursor : list string → string → CursorResult)
    (context_opts : gmap string string) : TiberoImpl CursorResult :=
  let self := DefaultImpl__init__ as_sql cursor context_opts in
  set_batch_separator
    (default (batch_separator self)
       (context_opts !! "tibero_batch_separator"))
    self.

(** Modelled from the spec: [DefaultImpl.static_output] is outside this file;
    it appends the text to the output buffer "as its own line". *)
Definition static_output (text : string) self : TiberoImpl CursorResult :=
  set_output_buffer (output_buffer self ++ [text]) self.

(** Modelled from the spec: [DefaultImpl._exec] is outside this file.  "In
    Script mode: append statement followed by profile.command_terminator to
    the output buffer"; "in Live mode: send statement to the active
    connection and return its result". *)
Definition DefaultImpl_exec (construct : string) self
  : option CursorResult * TiberoImpl CursorResult :=
  if as_sql self then
    (None, static_output (construct +:+ command_terminator self) self)
  else
    (Some (cursor self (connection self) construct),
     set_connection (connection self ++ [construct]) self).

(** Python truthiness of a string: non-empty. *)
Definition truthy (s : string) : bool :=
  match s with
  | EmptyString => false
  | String _ _ => true
  end.

(** [TiberoImpl._exec], lines 51-57.  The extra positional and keyword
    arguments are handed to the inherited method unchanged. *)
Definition _exec (construct : string) self
  : option CursorResult * TiberoImpl CursorResult :=
  let '(result, self) := DefaultImpl_exec construct self in
  let self :=
    if as_sql self && truthy (batch_separator self)
    then static_output (batch_separator self) self
    else self in
  (result, self).

(** [emit_begin] and [emit_commit], lines 59-63; both return [None]. *)
Definition emit_begin self : TiberoImpl CursorResult :=
  snd (_exec "SET TRANSACTION READ WRITE" self).

Definition emit_commit self : TiberoImpl CursorResult :=
  snd (_exec "COMMIT" self).

(** The entries one [_exec] call appends to the output buffer in script mode:
    the statement with the command terminator, then the batch separator
    unless it is empty. *)
Definition script_entries self (statement : string) : list string :=
  (statement +:+ command_terminator self)
  :: (if truthy (batch_separator self) then [batch_separator self] else []).

(** Dispatching a sequence of statements, one [_exec] call after the other. *)
Definition dispatch (statements : list string) self : TiberoImpl CursorResult :=
  foldl (fun self statement => snd (_exec statement self)) self statements.

(** The values the [_exec] calls of such a sequence return, in order. *)
Fixpoint dispatch_results (statements : list string) self
  : list (option CursorResult) :=
  match statements with
  | [] => []
  | statement :: rest =>
      let '(result, self) := _exec statement self in
      result :: dispatch_results rest self
  end.

End Adapter.

End Impl.

(** ** Operation renderer: the [visit_*] functions *)

Module Render.

(** The DDL compiler handed to every [visit_*] function, together with the
    formatting helpers of the generic layer that take it as first argument.
    These are external collaborators: identifier quoting, type and default
    formatting, literal rendering, column specification and the generic
    identity clause. *)
Record TiberoDDLCompiler (Column TypeEngine ServerDefault Identity : Type) :=
  mkCompiler {
    format_table_name : string → option string → string;
    format_column_name : string → string;
    format_type : TypeEngine → string;
    format_server_default : ServerDefault → string;
    render_literal_value : string → string;
    get_column_specification : Column → string;
    compiler_visit_identity_column : Identity → string
  }.

Arguments mkCompiler {Column TypeEngine ServerDefault Identity}.
Arguments format_table_name {Column TypeEngine ServerDefault Identity}.
Arguments format_column_name {Column TypeEngine ServerDefault Identity}.
Arguments format_type {Column TypeEngine ServerDefault Identity}.
Arguments format_server_default {Column TypeEngine ServerDefault Identity}.
Arguments render_literal_value {Column TypeEngine ServerDefault Identity}.
Arguments get_column_specification {Column TypeEngine ServerDefault Identity}.
Arguments compiler_visit_identity_column
  {Column TypeEngine ServerDefault Identity}.

(** The schema-change operations with a rule registered for "tibero".  Every
    variant carries [table_name] and [schema] first. *)
Inductive Operation (Column TypeEngine ServerDefault Identity : Type) :=
  | AddColumn (table_name : string) (schema : option string) (column : Column)
  | ColumnNullable (table_name : string) (schema : option string)
      (column_name : string) (nullable : bool)
  | ColumnType (table_name : string) (schema : option string)
      (column_name : string) (type_ : TypeEngine)
  | ColumnName (table_name : string) (schema : option string)
      (column_name : string) (newname : string)
  | ColumnDefault (table_name : string) (schema : option string)
      (column_name : string) (default : option ServerDefault)
  | ColumnComment (table_name : string) (schema : option string)
      (column_name : string) (comment : option string)
  | RenameTable (table_name : string) (schema : option string)
      (new_table_name : string)
  | IdentityColumnDefault (table_name : string) (schema : option string)
      (column_name : string) (default : option Identity).

Arguments AddColumn {Column TypeEngine ServerDefault Identity}.
Arguments ColumnNullable {Column TypeEngine ServerDefault Identity}.
Arguments ColumnType {Column TypeEngine ServerDefault Identity}.
Arguments ColumnName {Column TypeEngine ServerDefault Identity}.
Arguments ColumnDefault {Column TypeEngine ServerDefault Identity}.
Arguments ColumnComment {Column TypeEngine ServerDefault Identity}.
Arguments RenameTable {Column TypeEngine ServerDefault Identity}.
Arguments IdentityColumnDefault {Column TypeEngine ServerDefault Identity}.

Section Visitors.
Context {Column TypeEngine ServerDefault Identity : Type}.
Abbreviation Compiler :=
  (TiberoDDLCompiler Column TypeEngine ServerDefault Identity).

(** Modelled from the spec: [alter_table] is a helper of the generic layer,
    outside this file; every rule that uses it starts with
    "ALTER TABLE <table>", where <table> is the formatted table name. *)
Definition alter_table (compiler : Compiler) (name : string)
    (schema : option string) : string :=
  "ALTER TABLE " +:+ format_table_name compiler name schema.

(** Lines 150-151. *)
Definition alter_column (compiler : Compiler) (name : string) : string :=
  "MODIFY " +:+ format_column_name compiler name.

(** Lines 154-155. *)
Definition add_column (compiler : Compiler) (column : Column) : string :=
  "ADD " +:+ get_column_specification compiler column.

(** Lines 66-73. *)
Definition visit_add_column (table_name : string) (schema : option string)
    (column : Column) (compiler : Compiler) : string :=
  alter_table compiler table_name schema +:+ " " +:+ add_column compiler column.

(** Lines 76-84. *)
Definition visit_column_nullable (table_name : string) (schema : option string)
    (column_name : string) (nullable : bool) (compiler : Compiler) : string :=
  alter_table compiler table_name schema +:+ " "
  +:+ alter_column compiler column_name +:+ " "
  +:+ (if nullable then "NULL" else "NOT NULL").

(** Lines 87-95. *)
Definition visit_column_type (table_name : string) (schema : option string)
    (column_name : string) (type_ : TypeEngine) (compiler : Compiler) : string :=
  alter_table compiler table_name schema +:+ " "
  +:+ alter_column compiler column_name +:+ " "
  +:+ format_type compiler type_.

(** Lines 98-106. *)
Definition visit_column_name (table_name : string) (schema : option string)
    (column_name newname : string) (compiler : Compiler) : string :=
  alter_table compiler table_name schema +:+ " RENAME COLUMN "
  +:+ format_column_name compiler column_name +:+ " TO "
  +:+ format_column_name compiler newname.

(** Lines 109-119: the conditional expression binds weaker than [%]. *)
Definition visit_column_default (table_name : string) (schema : option string)
    (column_name : string) (default : option ServerDefault)
    (compiler : Compiler) : string :=
  alter_table compiler table_name schema +:+ " "
  +:+ alter_column compiler column_name +:+ " "
  +:+ match default with
      | Some d => "DEFAULT " +:+ format_server_default compiler d
      | None => "DEFAULT NULL"
      end.

(** Lines 122-137: the raw [table_name] and [column_name] attributes are
    substituted into the template; [schema] is not read. *)
Definition visit_column_comment (table_name : string) (schema : option string)
    (column_name : string) (comment : option string)
    (compiler : Compiler) : string :=
  let comment :=
    render_literal_value compiler
      (match comment with Some c => c | None => "" end) in
  "COMMENT ON COLUMN " +:+ table_name +:+ "." +:+ column_name +:+ " IS "
  +:+ comment.

(** Lines 140-147. *)
Definition visit_rename_table (table_name : string) (schema : option string)
    (new_table_name : string) (compiler : Compiler) : string :=
  alter_table compiler table_name schema +:+ " RENAME TO "
  +:+ format_table_name compiler new_table_name None.

(** Lines 158-172. *)
Definition visit_identity_column (table_name : string) (schema : option string)
    (column_name : string) (default : option Identity)
    (compiler : Compiler) : string :=
  let text :=
    alter_table compiler table_name schema +:+ " "
    +:+ alter_column compiler column_name +:+ " " in
  match default with
  | None => text +:+ "DROP IDENTITY"
  | Some identity => text +:+ compiler_visit_identity_column compiler identity
  end.

(** The [@compiles(..., "tibero")] registrations: dispatch on the operation. *)
Definition render (op : Operation Column TypeEngine ServerDefault Identity)
    (compiler : Compiler) : string :=
  match op with
  | AddColumn t s col => visit_add_column t s col compiler
  | ColumnNullable t s c n => visit_column_nullable t s c n compiler
  | ColumnType t s c ty => visit_column_type t s c ty compiler
  | ColumnName t s c n => visit_column_name t s c n compiler
  | ColumnDefault t s c d => visit_column_default t s c d compiler
  | ColumnComment t s c cm => visit_column_comment t s c cm compiler
  | RenameTable t s n => visit_rename_table t s n compiler
  | IdentityColumnDefault t s c d => visit_identity_column t s c d compiler
  end.

(** The [table_name] and [schema] attributes, which every element carries. *)
Definition element_table_name
    (op : Operation Column TypeEngine ServerDefault Identity) : string :=
  match op with
  | AddColumn t _ _ | ColumnNullable t _ _ _ | ColumnType t _ _ _
  | ColumnName t _ _ _ | ColumnDefault t _ _ _ | ColumnComment t _ _ _
  | RenameTable t _ _ | IdentityColumnDefault t _ _ _ => t
  end.

Definition element_schema
    (op : Operation Column TypeEngine ServerDefault Identity) : option string :=
  match op with
  | AddColumn _ s _ | ColumnNullable _ s _ _ | ColumnType _ s _ _
  | ColumnName _ s _ _ | ColumnDefault _ s _ _ | ColumnComment _ s _ _
  | RenameTable _ s _ | IdentityColumnDefault _ s _ _ => s
  end.

(** The keyword a rule puts after the table: [add_column] gives ADD,
    [alter_column] gives MODIFY, the two renames have their own; the comment
    rule is not an ALTER TABLE statement. *)
Definition clause_keyword
    (op : Operation Column TypeEngine ServerDefault Identity) : option string :=
  match op with
  | AddColumn _ _ _ => Some "ADD"
  | ColumnNullable _ _ _ _ | ColumnType _ _ _ _ | ColumnDefault _ _ _ _
  | IdentityColumnDefault _ _ _ _ => Some "MODIFY"
  | ColumnName _ _ _ _ => Some "RENAME COLUMN"
  | RenameTable _ _ _ => Some "RENAME TO"
  | ColumnComment _ _ _ _ => None
  end.

End Visitors.

(** A compiler for identifiers that need no quoting: names are emitted as
    they are, a schema is prefixed with a dot, a string literal is wrapped in
    single quotes, and the remaining collaborators return their argument. *)
Definition plain_compiler : TiberoDDLCompiler string string string string :=
  mkCompiler
    (fun name schema =>
       match schema with
       | Some s => s +:+ "." +:+ name
       | None => name
       end)
    (fun name => name)
    (fun ty => ty)
    (fun d => d)
    (fun v => "'" +:+ v +:+ "'")
    (fun col => col)
    (fun identity => identity).

End Render.

(** * Properties *)

(** ** Type synonym classes *)

Module TypeSynonymsFacts.
Import TypeSynonyms.

Lemma pairwise_disjoint_cons (X : gset string) (rest : list (gset string)) :
  pairwise_disjoint (X :: rest) ↔
  (∀ Y, Y ∈ rest → X ## Y) ∧ pairwise_disjoint rest.
Proof.
  unfold pairwise_disjoint. split.
  - intros H. split.
    + intros Y [k Hk]%list_elem_of_lookup.
      apply (H 0 (S k) X Y); [lia | done | done].
    + intros i j A B Hij Hi Hj.
      apply (H (S i) (S j) A B); [lia | done | done].
  - intros [Hhd Htl] i j A B Hij Hi Hj.
    destruct i as [|i], j as [|j]; simpl in *.
    + lia.
    + injection Hi as <-. apply Hhd. eapply list_elem_of_lookup_2; eauto.
    + injection Hj as <-. symmetry. apply Hhd.
      eapply list_elem_of_lookup_2; eauto.
    + apply (Htl i j A B); [lia | done | done].
Qed.

Lemma pairwise_disjoint_nil : pairwise_disjoint [].
Proof. intros i j X Y _ Hi. by rewrite lookup_nil in Hi. Qed.

Lemma pairwise_disjointb_spec (classes : list (gset string)) :
  pairwise_disjointb classes = true ↔ pairwise_disjoint classes.
Proof.
  induction classes as [|X rest IH]; simpl.
  - split; [intros _; apply pairwise_disjoint_nil | done].
  - rewrite pairwise_disjoint_cons, andb_true_iff, IH, forallb_forall.
    split; intros [H1 H2]; split; try done.
    + intros Y HY. apply list_elem_of_In in HY.
      specialize (H1 Y HY). by apply bool_decide_eq_true in H1.
    + intros Y HY. apply bool_decide_eq_true, H1. by apply list_elem_of_In.
Qed.

Lemma pairwise_disjoint_app (l1 l2 : list (gset string)) :
  pairwise_disjoint (l1 ++ l2) ↔
  pairwise_disjoint l1 ∧ pairwise_disjoint l2
  ∧ (∀ X Y, X ∈ l1 → Y ∈ l2 → X ## Y).
Proof.
  induction l1 as [|A l1 IH]; simpl.
  - split.
    + intros H. split; [apply pairwise_disjoint_nil |].
      split; [done |]. intros X Y HX. by apply not_elem_of_nil in HX.
    + by intros (_ & H & _).
  - rewrite !pairwise_disjoint_cons, IH. split.
    + intros (Hhd & H1 & H2 & H12). repeat split; try done.
      * intros Y HY. apply Hhd. apply elem_of_app. by left.
      * intros X Y HX HY. apply elem_of_cons in HX as [->|HX].
        -- apply Hhd. apply elem_of_app. by right.
        -- by apply H12.
    + intros ((Hhd & H1) & H2 & H12). repeat split; try done.
      * intros Y [HY|HY]%elem_of_app; [by apply Hhd |].
        apply H12; [by left | done].
      * intros X Y HX HY. apply H12; [by right | done].
Qed.

Lemma disjoint_tibero_names (X : gset string) :
  X ## tibero_names ↔ ∀ Y, Y ∈ tibero_classes → X ## Y.
Proof.
  unfold tibero_names. split.
  - intros H Y HY x HxX HxY. apply (H x HxX).
    apply elem_of_union_list. eauto.
  - intros H x HxX (Y & HY & HxY)%elem_of_union_list.
    by apply (H Y HY x).
Qed.

Lemma tibero_classes_disjoint : pairwise_disjoint tibero_classes.
Proof. apply pairwise_disjointb_spec. by vm_compute. Qed.

Lemma tibero_names_eq :
  tibero_names =
  {[ "VARCHAR"; "VARCHAR2"; "BIGINT"; "INTEGER"; "SMALLINT"; "DECIMAL";
     "NUMERIC"; "NUMBER"; "DOUBLE"; "FLOAT"; "DOUBLE_PRECISION" ]}.
Proof. unfold tibero_names, tibero_classes. simpl. set_solver. Qed.

(** C1, as stated, at the inherited tuple [({"NUMERIC", "DECIMAL"},)]: the
    names NUMERIC and DECIMAL then occur both in the inherited class and in
    the second dialect-specific class, so the entries of [type_synonyms] are
    not pairwise disjoint. *)
Lemma type_synonyms_overlap :
  ¬ pairwise_disjoint (type_synonyms [ {[ "NUMERIC"; "DECIMAL" ]} ]).
Proof.
  intros H.
  assert (Hd : ({[ "NUMERIC"; "DECIMAL" ]} : gset string)
               ## {[ "BIGINT"; "INTEGER"; "SMALLINT"; "DECIMAL"; "NUMERIC";
                     "NUMBER" ]}).
  { apply (H 0 2); [lia | reflexivity | reflexivity]. }
  apply (Hd "NUMERIC"); set_solver.
Qed.

(** C1 (amended): the three dialect-specific classes are pairwise disjoint,
    and the whole tuple [type_synonyms] is pairwise disjoint exactly when the
    inherited classes are pairwise disjoint among themselves and none of them
    contains a name of a dialect-specific class. *)
Theorem type_synonyms_disjoint_iff (default_type_synonyms : list (gset string)) :
  pairwise_disjoint tibero_classes
  ∧ (pairwise_disjoint (type_synonyms default_type_synonyms) ↔
     pairwise_disjoint default_type_synonyms
     ∧ ∀ X, X ∈ default_type_synonyms → X ## tibero_names).
Proof.
  split; [apply tibero_classes_disjoint |].
  unfold type_synonyms. rewrite pairwise_disjoint_app. split.
  - intros (Hb & _ & Hx). split; [done |].
    intros X HX. apply disjoint_tibero_names. intros Y HY. by apply Hx.
  - intros (Hb & Hx). split; [done |].
    split; [apply tibero_classes_disjoint |].
    intros X Y HX HY.
    pose proof (proj1 (disjoint_tibero_names X) (Hx X HX)) as HXY.
    by apply HXY.
Qed.

Lemma equivalent_true_iff (classes : list (gset string)) (a b : string) :
  equivalent a b classes = true ↔
  a = b ∨ ∃ batch, batch ∈ classes ∧ a ∈ batch ∧ b ∈ batch.
Proof.
  unfold equivalent.
  rewrite orb_true_iff, bool_decide_eq_true, existsb_exists.
  split; (intros [Heq | (batch & Hin & Hab)]; [by left | right]);
    exists batch.
  - apply list_elem_of_In in Hin.
    apply andb_true_iff in Hab as [Ha Hb].
    by apply bool_decide_eq_true in Ha, Hb.
  - destruct Hab as [Ha Hb]. split; [by apply list_elem_of_In |].
    apply andb_true_iff. by rewrite !bool_decide_eq_true.
Qed.

Lemma equivalent_sym (classes : list (gset string)) (a b : string) :
  equivalent a b classes = equivalent b a classes.
Proof.
  apply eq_true_iff_eq. rewrite !equivalent_true_iff.
  split; (intros [-> | (batch & ? & ? & ?)]; [by left | right; eauto]).
Qed.

(** C6: [equivalent a b] holds exactly when the names are equal or share an
    entry of the synonym classes; it is reflexive and symmetric; it is false
    for distinct names that share no entry, in particular, under the
    disjointness invariant of the profile, for distinct names lying in two
    different entries.  With the single class {VARCHAR, VARCHAR2}: VARCHAR and
    VARCHAR2 are equivalent, VARCHAR and INTEGER are not. *)
Theorem equivalent_spec (classes : list (gset string)) (a b : string) :
  (equivalent a b classes = true ↔
   a = b ∨ ∃ batch, batch ∈ classes ∧ a ∈ batch ∧ b ∈ batch)
  ∧ equivalent a a classes = true
  ∧ equivalent a b classes = equivalent b a classes
  ∧ (a ≠ b → (∀ batch, batch ∈ classes → ¬ (a ∈ batch ∧ b ∈ batch)) →
     equivalent a b classes = false)
  ∧ (pairwise_disjoint classes →
     ∀ i j X Y, i ≠ j → classes !! i = Some X → classes !! j = Some Y →
       a ∈ X → b ∈ Y → a ≠ b → equivalent a b classes = false)
  ∧ equivalent "VARCHAR" "VARCHAR2" [ {[ "VARCHAR"; "VARCHAR2" ]} ] = true
  ∧ equivalent "VARCHAR" "INTEGER" [ {[ "VARCHAR"; "VARCHAR2" ]} ] = false.
Proof.
  assert (Hno : a ≠ b →
    (∀ batch, batch ∈ classes → ¬ (a ∈ batch ∧ b ∈ batch)) →
    equivalent a b classes = false).
  { intros Hne Hnone. apply not_true_iff_false.
    rewrite equivalent_true_iff. intros [? | (batch & Hin & Hab)]; [done |].
    by apply (Hnone batch). }
  split; [apply equivalent_true_iff |].
  split; [apply equivalent_true_iff; by left |].
  split; [apply equivalent_sym |].
  split; [exact Hno |].
  split; [| split; by vm_compute].
  intros Hdisj i j X Y Hij Hi Hj Ha Hb Hne. apply Hno; [done |].
  intros batch [k Hk]%list_elem_of_lookup [Hak Hbk].
  destruct (decide (k = i)) as [-> | Hki].
  - assert (batch = X) as -> by congruence.
    by apply (Hdisj i j X Y Hij Hi Hj b).
  - by apply (Hdisj k i batch X Hki Hk Hi a).
Qed.

(** C6 at VARCHAR and INTEGER over the three dialect-specific classes. *)
Lemma equivalent_spec_witness :
  pairwise_disjoint tibero_classes
  ∧ "VARCHAR" ≠ "INTEGER"
  ∧ equivalent "VARCHAR" "INTEGER" tibero_classes = false.
Proof.
  split; [apply tibero_classes_disjoint |].
  split; [discriminate |].
  destruct (equivalent_spec tibero_classes "VARCHAR" "INTEGER")
    as (_ & _ & _ & _ & H & _).
  apply (H tibero_classes_disjoint 0 1
           {[ "VARCHAR"; "VARCHAR2" ]}
           {[ "BIGINT"; "INTEGER"; "SMALLINT"; "DECIMAL"; "NUMERIC";
              "NUMBER" ]}).
  - lia.
  - reflexivity.
  - reflexivity.
  - set_solver.
  - set_solver.
  - discriminate.
Defined.

End TypeSynonymsFacts.

(** ** Execution adapter *)

Module ImplFacts.
Import Impl.

Lemma append_empty_r (s : string) : s +:+ "" = s.
Proof.
  induction s as [|a s IH]; [reflexivity |].
  change (String a (s +:+ "") = String a s). by rewrite IH.
Qed.

Lemma truthy_nonempty (s : string) : truthy s = true ↔ s ≠ "".
Proof. destruct s; simpl; split; try done. Qed.

Section Adapter.
Context {CursorResult : Type}.
Implicit Types self : TiberoImpl CursorResult.

Lemma _exec_result (statement : string) self :
  fst (_exec statement self) =
  if as_sql self then None
  else Some (cursor self (connection self) statement).
Proof. unfold _exec, DefaultImpl_exec. by destruct (as_sql self). Qed.

Lemma _exec_output_buffer (statement : string) self :
  output_buffer (snd (_exec statement self)) =
  if as_sql self then output_buffer self ++ script_entries self statement
  else output_buffer self.
Proof.
  unfold _exec, DefaultImpl_exec, script_entries.
  destruct (as_sql self) eqn:Hmode; simpl; [| by rewrite Hmode].
  rewrite Hmode. simpl.
  destruct (truthy (batch_separator self)); simpl; [| done].
  by rewrite <- app_assoc.
Qed.

Lemma _exec_connection (statement : string) self :
  connection (snd (_exec statement self)) =
  if as_sql self then connection self else connection self ++ [statement].
Proof.
  unfold _exec, DefaultImpl_exec.
  destruct (as_sql self) eqn:Hmode; simpl; rewrite Hmode; simpl; [| done].
  by destruct (truthy (batch_separator self)).
Qed.

Lemma _exec_profile (statement : string) self :
  as_sql (snd (_exec statement self)) = as_sql self
  ∧ batch_separator (snd (_exec statement self)) = batch_separator self
  ∧ command_terminator (snd (_exec statement self)) = command_terminator self
  ∧ transactional_ddl (snd (_exec statement self)) = transactional_ddl self.
Proof.
  unfold _exec, DefaultImpl_exec.
  destruct (as_sql self) eqn:Hmode; simpl; rewrite Hmode; simpl; [| done].
  by destruct (truthy (batch_separator self)).
Qed.

Lemma dispatch_cons (statement : string) (rest : list string) self :
  dispatch (statement :: rest) self = dispatch rest (snd (_exec statement self)).
Proof. reflexivity. Qed.

Lemma dispatch_profile (statements : list string) self :
  as_sql (dispatch statements self) = as_sql self
  ∧ batch_separator (dispatch statements self) = batch_separator self
  ∧ command_terminator (dispatch statements self) = command_terminator self
  ∧ transactional_ddl (dispatch statements self) = transactional_ddl self.
Proof.
  revert self. induction statements as [|s rest IH]; intros self; [done |].
  rewrite dispatch_cons.
  destruct (IH (snd (_exec s self))) as (-> & -> & -> & ->).
  apply _exec_profile.
Qed.

Lemma dispatch_output_buffer (statements : list string) self :
  output_buffer (dispatch statements self) =
  if as_sql self
  then output_buffer self ++ flat_map (script_entries self) statements
  else output_buffer self.
Proof.
  revert self. induction statements as [|s rest IH]; intros self.
  - simpl. destruct (as_sql self); [by rewrite app_nil_r | done].
  - rewrite dispatch_cons, IH, _exec_output_buffer.
    destruct (_exec_profile s self) as (-> & Hsep & Hterm & _).
    assert (Hext : flat_map (script_entries (snd (_exec s self))) rest
                   = flat_map (script_entries self) rest).
    { apply flat_map_ext. intros x. unfold script_entries.
      by rewrite Hsep, Hterm. }
    rewrite Hext. destruct (as_sql self); [| done].
    by rewrite <- app_assoc.
Qed.

Lemma dispatch_connection (statements : list string) self :
  connection (dispatch statements self) =
  if as_sql self then connection self else connection self ++ statements.
Proof.
  revert self. induction statements as [|s rest IH]; intros self.
  - simpl. destruct (as_sql self); [done | by rewrite app_nil_r].
  - rewrite dispatch_cons, IH, _exec_connection.
    destruct (_exec_profile s self) as (-> & _).
    destruct (as_sql self); [done |]. by rewrite <- app_assoc.
Qed.

Lemma script_pairs_length (f : string → string) (sep : string)
    (l : list string) :
  length (flat_map (λ s, [f s; sep]) l) = 2 * length l.
Proof. induction l as [|x l IH]; simpl; lia. Qed.

Lemma script_pairs_lookup (f : string → string) (sep : string)
    (l : list string) (i : nat) (s : string) :
  l !! i = Some s →
  flat_map (λ s, [f s; sep]) l !! (2 * i) = Some (f s)
  ∧ flat_map (λ s, [f s; sep]) l !! (2 * i + 1) = Some sep.
Proof.
  revert i. induction l as [|x l IH]; intros [|i] Hi; simpl in Hi; try done.
  - injection Hi as ->. by split.
  - replace (2 * S i) with (S (S (2 * i))) by lia. by apply IH.
Qed.

Lemma flat_map_singleton (l : list string) : flat_map (λ s, [s]) l = l.
Proof. induction l as [|x l IH]; [done |]. simpl. by rewrite IH. Qed.

(** C5: in script mode with a non-empty batch separator, dispatching N
    statements appends to the output buffer exactly N pairs, in the order of
    the statements: the statement followed by the command terminator, and
    immediately after it the separator; so the appended part has 2 N entries,
    entry 2 i is the i-th statement and entry 2 i + 1 is its separator, and
    nothing is sent to the connection.  In live mode the connection is sent
    exactly the N statements, one per call and nothing else, and nothing is
    written to the output buffer. *)
Theorem dispatch_separators self (statements : list string) :
  (as_sql self = true → batch_separator self ≠ "" →
     output_buffer (dispatch statements self) =
       output_buffer self
       ++ flat_map (λ s, [s +:+ command_terminator self; batch_separator self])
            statements
     ∧ length (output_buffer (dispatch statements self)) =
       length (output_buffer self) + 2 * length statements
     ∧ (∀ i s, statements !! i = Some s →
          output_buffer (dispatch statements self)
            !! (length (output_buffer self) + 2 * i) =
            Some (s +:+ command_terminator self)
          ∧ output_buffer (dispatch statements self)
              !! (length (output_buffer self) + 2 * i + 1) =
            Some (batch_separator self))
     ∧ connection (dispatch statements self) = connection self)
  ∧ (as_sql self = false →
     connection (dispatch statements self) = connection self ++ statements
     ∧ output_buffer (dispatch statements self) = output_buffer self).
Proof.
  split.
  - intros Hmode Hsep%truthy_nonempty.
    assert (Hbuf : output_buffer (dispatch statements self) =
      output_buffer self
      ++ flat_map (λ s, [s +:+ command_terminator self; batch_separator self])
           statements).
    { rewrite dispatch_output_buffer, Hmode. f_equal.
      apply flat_map_ext. intros s. unfold script_entries. by rewrite Hsep. }
    split; [done |].
    split; [by rewrite Hbuf, length_app, script_pairs_length |].
    split; [| by rewrite dispatch_connection, Hmode].
    intros i s Hi. rewrite Hbuf.
    destruct (script_pairs_lookup (λ s, s +:+ command_terminator self)
                (batch_separator self) statements i s Hi) as [Hst Hsp].
    rewrite <- Nat.add_assoc, !lookup_app_r by lia.
    replace (length (output_buffer self) + 2 * i - length (output_buffer self))
      with (2 * i) by lia.
    replace (length (output_buffer self) + (2 * i + 1)
             - length (output_buffer self)) with (2 * i + 1) by lia.
    done.
  - intros Hmode.
    by rewrite dispatch_connection, dispatch_output_buffer, Hmode.
Qed.

(** C7: a constructed profile declares no transactional DDL; [emit_begin]
    and [emit_commit] each dispatch exactly one statement through [_exec],
    "SET TRANSACTION READ WRITE" and "COMMIT": in live mode that statement
    alone is sent to the connection, in script mode it alone is written,
    followed by the batch separator unless that is empty. *)
Theorem emit_begin_commit self :
  (∀ mode cur opts,
     transactional_ddl (__init__ (CursorResult := CursorResult) mode cur opts)
     = false)
  ∧ emit_begin self = dispatch ["SET TRANSACTION READ WRITE"] self
  ∧ emit_commit self = dispatch ["COMMIT"] self
  ∧ connection (emit_begin self) =
    (if as_sql self then connection self
     else connection self ++ ["SET TRANSACTION READ WRITE"])
  ∧ output_buffer (emit_begin self) =
    (if as_sql self
     then output_buffer self ++ script_entries self "SET TRANSACTION READ WRITE"
     else output_buffer self)
  ∧ connection (emit_commit self) =
    (if as_sql self then connection self else connection self ++ ["COMMIT"])
  ∧ output_buffer (emit_commit self) =
    (if as_sql self
     then output_buffer self ++ script_entries self "COMMIT"
     else output_buffer self).
Proof.
  unfold emit_begin, emit_commit.
  repeat split; try done;
    first [apply _exec_connection | apply _exec_output_buffer].
Qed.

(** C10: the constructed batch separator is the value of the context option
    "tibero_batch_separator" when it is supplied and "/" otherwise; every
    script-mode dispatch on the constructed profile then writes that value
    after each statement, and writes the statements alone when the option is
    the empty string. *)
Theorem batch_separator_override (mode : bool)
    (cur : list string → string → CursorResult)
    (opts : gmap string string) (v : string) (statements : list string) :
  batch_separator (__init__ mode cur opts) =
    default "/" (opts !! "tibero_batch_separator")
  ∧ batch_separator
      (__init__ mode cur (delete "tibero_batch_separator" opts)) = "/"
  ∧ batch_separator
      (__init__ mode cur (<["tibero_batch_separator" := v]> opts)) = v
  ∧ output_buffer
      (dispatch statements
         (__init__ true cur (delete "tibero_batch_separator" opts))) =
    flat_map (λ s, [s; "/"]) statements
  ∧ output_buffer
      (dispatch statements
         (__init__ true cur (<["tibero_batch_separator" := v]> opts))) =
    flat_map (λ s, s :: if truthy v then [v] else []) statements
  ∧ output_buffer
      (dispatch statements
         (__init__ true cur (<["tibero_batch_separator" := ""]> opts))) =
    statements.
Proof.
  assert (Hinit : ∀ o, output_buffer (dispatch statements (__init__ true cur o))
    = flat_map (λ s, s :: if truthy (default "/" (o !! "tibero_batch_separator"))
                          then [default "/" (o !! "tibero_batch_separator")]
                          else []) statements).
  { intros o. rewrite dispatch_output_buffer. simpl.
    apply flat_map_ext. intros s. unfold script_entries. simpl.
    by rewrite append_empty_r. }
  split; [done |].
  split; [unfold __init__; simpl; by rewrite lookup_delete_eq |].
  split; [unfold __init__; simpl; by rewrite lookup_insert_eq |].
  rewrite !Hinit, lookup_delete_eq, !lookup_insert_eq. simpl.
  repeat split; try done. apply flat_map_singleton.
Qed.

End Adapter.

(** C5 at two statements, in script mode and in live mode, with the default
    profile. *)
Lemma dispatch_separators_witness :
  output_buffer
    (dispatch ["CREATE TABLE t (c NUMBER)"; "COMMIT"]
       (__init__ true (λ _ _, ()) ∅)) =
    ["CREATE TABLE t (c NUMBER)"; "/"; "COMMIT"; "/"]
  ∧ output_buffer
      (dispatch ["CREATE TABLE t (c NUMBER)"; "COMMIT"]
         (__init__ true (λ _ _, ()) ∅)) !! 3 = Some "/"
  ∧ connection
      (dispatch ["CREATE TABLE t (c NUMBER)"; "COMMIT"]
         (__init__ false (λ _ _, ()) ∅)) =
    ["CREATE TABLE t (c NUMBER)"; "COMMIT"]
  ∧ output_buffer
      (dispatch ["CREATE TABLE t (c NUMBER)"; "COMMIT"]
         (__init__ false (λ _ _, ()) ∅)) = [].
Proof.
  destruct (dispatch_separators (__init__ true (λ _ _, ()) ∅)
              ["CREATE TABLE t (c NUMBER)"; "COMMIT"]) as [Hscript _].
  destruct (dispatch_separators (__init__ false (λ _ _, ()) ∅)
              ["CREATE TABLE t (c NUMBER)"; "COMMIT"]) as [_ Hlive].
  destruct Hscript as (Hbuf & _ & Hat & _); [reflexivity | discriminate |].
  destruct Hlive as (Hconn & Hout); [reflexivity |].
  split; [rewrite Hbuf; reflexivity |].
  split; [| split; [rewrite Hconn; reflexivity | rewrite Hout; reflexivity]].
  destruct (Hat 1 "COMMIT") as [_ Hsep]; [reflexivity |].
  exact Hsep.
Defined.

End ImplFacts.

(** ** Operation renderer *)

Module RenderFacts.
Import Render.

Lemma append_assoc (s1 s2 s3 : string) :
  (s1 +:+ s2) +:+ s3 = s1 +:+ s2 +:+ s3.
Proof.
  induction s1 as [|a s1 IH]; [reflexivity |].
  change (String a ((s1 +:+ s2) +:+ s3) = String a (s1 +:+ s2 +:+ s3)).
  by rewrite IH.
Qed.

(** Unfold a rendering rule and bring the concatenations in one shape. *)
Ltac render_norm :=
  unfold render, visit_add_column, visit_column_nullable, visit_column_type,
    visit_column_name, visit_column_default, visit_column_comment,
    visit_rename_table, visit_identity_column, alter_table, alter_column,
    add_column;
  rewrite ?append_assoc.

Section Visitors.
Context {Column TypeEngine ServerDefault Identity : Type}.
Implicit Types compiler :
  TiberoDDLCompiler Column TypeEngine ServerDefault Identity.
Implicit Types table_name column_name : string.
Implicit Types schema : option string.

(** C8: a ColumnNullable operation renders as
    ALTER TABLE <table> MODIFY <column> NULL when the flag is true and as
    ALTER TABLE <table> MODIFY <column> NOT NULL when it is false; for table T
    and column C emitted unquoted, the latter is
    "ALTER TABLE T MODIFY C NOT NULL". *)
Theorem visit_column_nullable_spec compiler table_name schema column_name :
  render (ColumnNullable table_name schema column_name true) compiler =
    "ALTER TABLE " +:+ format_table_name compiler table_name schema
    +:+ " MODIFY " +:+ format_column_name compiler column_name +:+ " NULL"
  ∧ render (ColumnNullable table_name schema column_name false) compiler =
    "ALTER TABLE " +:+ format_table_name compiler table_name schema
    +:+ " MODIFY " +:+ format_column_name compiler column_name +:+ " NOT NULL"
  ∧ (format_table_name compiler "T" None = "T" →
     format_column_name compiler "C" = "C" →
     render (ColumnNullable "T" None "C" false) compiler =
     "ALTER TABLE T MODIFY C NOT NULL").
Proof.
  split; [by render_norm |]. split; [by render_norm |].
  intros Ht Hc. render_norm. by rewrite Ht, Hc.
Qed.

(** C2: a ColumnDefault operation renders as
    ALTER TABLE <table> MODIFY <column> DEFAULT <expr> when a default is
    present and as ALTER TABLE <table> MODIFY <column> DEFAULT NULL when it is
    absent; for table T and column C emitted unquoted, the latter is
    "ALTER TABLE T MODIFY C DEFAULT NULL". *)
Theorem visit_column_default_spec compiler table_name schema column_name
    (expr : ServerDefault) :
  render (ColumnDefault table_name schema column_name (Some expr)) compiler =
    "ALTER TABLE " +:+ format_table_name compiler table_name schema
    +:+ " MODIFY " +:+ format_column_name compiler column_name
    +:+ " DEFAULT " +:+ format_server_default compiler expr
  ∧ render (ColumnDefault table_name schema column_name None) compiler =
    "ALTER TABLE " +:+ format_table_name compiler table_name schema
    +:+ " MODIFY " +:+ format_column_name compiler column_name
    +:+ " DEFAULT NULL"
  ∧ (format_table_name compiler "T" None = "T" →
     format_column_name compiler "C" = "C" →
     render (ColumnDefault "T" None "C" None) compiler =
     "ALTER TABLE T MODIFY C DEFAULT NULL").
Proof.
  split; [by render_norm |]. split; [by render_norm |].
  intros Ht Hc. render_norm. by rewrite Ht, Hc.
Qed.

(** C9: a RenameTable operation renders as
    ALTER TABLE <table> RENAME TO <new_table>, where <table> is formatted
    with the operation's schema and <new_table> is formatted with no schema,
    whatever the operation's schema is; for names T and T2 emitted unquoted
    and no schema the text is "ALTER TABLE T RENAME TO T2". *)
Theorem visit_rename_table_spec compiler table_name schema
    (new_table_name : string) :
  render (RenameTable table_name schema new_table_name) compiler =
    "ALTER TABLE " +:+ format_table_name compiler table_name schema
    +:+ " RENAME TO " +:+ format_table_name compiler new_table_name None
  ∧ (format_table_name compiler "T" None = "T" →
     format_table_name compiler "T2" None = "T2" →
     render (RenameTable "T" None "T2") compiler =
     "ALTER TABLE T RENAME TO T2").
Proof.
  split; [by render_norm |].
  intros Ht Hn. render_norm. by rewrite Ht, Hn.
Qed.

(** C4: an IdentityColumnDefault operation without identity spec renders as
    ALTER TABLE <table> MODIFY <column> DROP IDENTITY, so its text ends with
    "DROP IDENTITY"; with an identity spec it renders as
    ALTER TABLE <table> MODIFY <column> followed by a space and the clause of
    the compiler's own identity formatting. *)
Theorem visit_identity_column_spec compiler table_name schema column_name
    (identity : Identity) :
  render (IdentityColumnDefault table_name schema column_name None) compiler =
    "ALTER TABLE " +:+ format_table_name compiler table_name schema
    +:+ " MODIFY " +:+ format_column_name compiler column_name
    +:+ " DROP IDENTITY"
  ∧ (∃ prefix,
       render (IdentityColumnDefault table_name schema column_name None)
         compiler = prefix +:+ "DROP IDENTITY")
  ∧ render (IdentityColumnDefault table_name schema column_name (Some identity))
      compiler =
    ("ALTER TABLE " +:+ format_table_name compiler table_name schema
     +:+ " MODIFY " +:+ format_column_name compiler column_name +:+ " ")
    +:+ compiler_visit_identity_column compiler identity.
Proof.
  split; [by render_norm |]. split; [| by render_norm].
  by eexists.
Qed.

(** C3 on the code: a ColumnComment operation renders as
    COMMENT ON COLUMN <table_name>.<column_name> IS <literal> with the raw
    table and column names; the schema is not read and no name goes through
    the formatting helpers.  An absent comment renders as the literal of the
    empty string.  With schema S, table T and column C the statement names
    T.C, while the formatted schema-qualified table name is S.T. *)
Theorem visit_column_comment_unqualified compiler table_name schema column_name
    (comment : option string) :
  render (ColumnComment table_name schema column_name comment) compiler =
    "COMMENT ON COLUMN " +:+ table_name +:+ "." +:+ column_name +:+ " IS "
    +:+ render_literal_value compiler (default "" comment)
  ∧ render (ColumnComment table_name schema column_name None) compiler =
    "COMMENT ON COLUMN " +:+ table_name +:+ "." +:+ column_name +:+ " IS "
    +:+ render_literal_value compiler ""
  ∧ render (ColumnComment table_name schema column_name comment) compiler =
    render (ColumnComment table_name None column_name comment) compiler
  ∧ render (ColumnComment "T" (Some "S") "C" (Some "x")) plain_compiler =
    "COMMENT ON COLUMN T.C IS 'x'"
  ∧ "COMMENT ON COLUMN " +:+ format_table_name plain_compiler "T" (Some "S")
    +:+ "." +:+ format_column_name plain_compiler "C" +:+ " IS "
    +:+ render_literal_value plain_compiler "x" =
    "COMMENT ON COLUMN S.T.C IS 'x'".
Proof.
  repeat split; done.
Qed.

End Visitors.

(** C8 with the unquoted compiler. *)
Lemma visit_column_nullable_witness :
  format_table_name plain_compiler "T" None = "T"
  ∧ format_column_name plain_compiler "C" = "C"
  ∧ render (ColumnNullable "T" None "C" false) plain_compiler =
    "ALTER TABLE T MODIFY C NOT NULL".
Proof.
  split; [reflexivity |]. split; [reflexivity |].
  apply (visit_column_nullable_spec plain_compiler "T" None "C");
    reflexivity.
Defined.

(** C2 with the unquoted compiler. *)
Lemma visit_column_default_witness :
  format_table_name plain_compiler "T" None = "T"
  ∧ format_column_name plain_compiler "C" = "C"
  ∧ render (ColumnDefault "T" None "C" None) plain_compiler =
    "ALTER TABLE T MODIFY C DEFAULT NULL".
Proof.
  split; [reflexivity |]. split; [reflexivity |].
  apply (visit_column_default_spec plain_compiler "T" None "C" "0");
    reflexivity.
Defined.

(** C9 with the unquoted compiler. *)
Lemma visit_rename_table_witness :
  format_table_name plain_compiler "T" None = "T"
  ∧ format_table_name plain_compiler "T2" None = "T2"
  ∧ render (RenameTable "T" None "T2") plain_compiler =
    "ALTER TABLE T RENAME TO T2".
Proof.
  split; [reflexivity |]. split; [reflexivity |].
  apply (visit_rename_table_spec plain_compiler "T" None "T2"); reflexivity.
Defined.

End RenderFacts.

(** * Further properties of the code *)

(** ** Rendering rules: statement head and what the text determines *)

Module RendererProperties.
Import Render RenderFacts.

Lemma append_inj_l (s a b : string) : s +:+ a = s +:+ b → a = b.
Proof. apply (inj (String.app s)). Qed.

Lemma append_cancel_iff (s a b : string) : s +:+ a = s +:+ b ↔ a = b.
Proof. split; [apply append_inj_l | by intros ->]. Qed.

Section Visitors.
Context {Column TypeEngine ServerDefault Identity : Type}.
Implicit Types compiler :
  TiberoDDLCompiler Column TypeEngine ServerDefault Identity.
Implicit Types op : Operation Column TypeEngine ServerDefault Identity.
Implicit Types table_name column_name : string.
Implicit Types schema : option string.

(** X1: every rule except the comment rule renders
    ALTER TABLE <table> <keyword> <rest>, where <table> is the element's table
    name formatted with the element's schema and <keyword> is ADD, MODIFY,
    RENAME COLUMN or RENAME TO by the kind of operation; the comment rule
    renders COMMENT ON COLUMN followed by the raw table name and a dot. *)
Theorem render_statement_head op compiler :
  match clause_keyword op with
  | Some keyword =>
      ∃ rest, render op compiler =
        "ALTER TABLE "
        +:+ format_table_name compiler (element_table_name op)
              (element_schema op)
        +:+ " " +:+ keyword +:+ " " +:+ rest
  | None =>
      ∃ rest, render op compiler =
        "COMMENT ON COLUMN " +:+ element_table_name op +:+ "." +:+ rest
  end.
Proof.
  destruct op as [t s col | t s c n | t s c ty | t s c n | t s c d | t s c cm
                 | t s n | t s c d]; simpl.
  - exists (get_column_specification compiler col). by render_norm.
  - exists (format_column_name compiler c
            +:+ " " +:+ (if n then "NULL" else "NOT NULL")).
    by render_norm.
  - exists (format_column_name compiler c +:+ " " +:+ format_type compiler ty).
    by render_norm.
  - exists (format_column_name compiler c +:+ " TO "
            +:+ format_column_name compiler n).
    by render_norm.
  - exists (format_column_name compiler c +:+ " "
            +:+ match d with
                | Some e => "DEFAULT " +:+ format_server_default compiler e
                | None => "DEFAULT NULL"
                end).
    by render_norm.
  - eexists. by render_norm.
  - exists (format_table_name compiler n None). by render_norm.
  - exists (format_column_name compiler c +:+ " "
            +:+ match d with
                | Some i => compiler_visit_identity_column compiler i
                | None => "DROP IDENTITY"
                end).
    render_norm. by destruct d; rewrite ?append_assoc.
Qed.

(** X2: for one table, schema and column, the two values of the nullable
    flag never render to the same text. *)
Theorem visit_column_nullable_flag_inj compiler table_name schema column_name
    (nullable1 nullable2 : bool) :
  render (ColumnNullable table_name schema column_name nullable1) compiler =
  render (ColumnNullable table_name schema column_name nullable2) compiler
  ↔ nullable1 = nullable2.
Proof.
  render_norm. rewrite !append_cancel_iff.
  destruct nullable1, nullable2; split; done.
Qed.

(** X3: for one table, schema and column, an absent default renders the same
    text as a present default exactly when that default formats as NULL, and
    two present defaults render the same text exactly when they format the
    same. *)
Theorem visit_column_default_determines compiler table_name schema column_name
    (d1 d2 : ServerDefault) :
  (render (ColumnDefault table_name schema column_name (Some d1)) compiler =
   render (ColumnDefault table_name schema column_name None) compiler
   ↔ format_server_default compiler d1 = "NULL")
  ∧ (render (ColumnDefault table_name schema column_name (Some d1)) compiler =
     render (ColumnDefault table_name schema column_name (Some d2)) compiler
     ↔ format_server_default compiler d1 = format_server_default compiler d2).
Proof.
  split; render_norm; rewrite !append_cancel_iff.
  - change "DEFAULT NULL" with ("DEFAULT " +:+ "NULL").
    by rewrite append_cancel_iff.
  - done.
Qed.

(** X4: for one table, schema and column, setting an identity renders the
    text of dropping it exactly when the compiler's identity clause is the
    text DROP IDENTITY, and two identities render the same text exactly when
    their clauses are the same. *)
Theorem visit_identity_column_determines compiler table_name schema column_name
    (i1 i2 : Identity) :
  (render (IdentityColumnDefault table_name schema column_name (Some i1))
     compiler =
   render (IdentityColumnDefault table_name schema column_name None) compiler
   ↔ compiler_visit_identity_column compiler i1 = "DROP IDENTITY")
  ∧ (render (IdentityColumnDefault table_name schema column_name (Some i1))
       compiler =
     render (IdentityColumnDefault table_name schema column_name (Some i2))
       compiler
     ↔ compiler_visit_identity_column compiler i1 =
       compiler_visit_identity_column compiler i2).
Proof.
  split; render_norm; by rewrite !append_cancel_iff.
Qed.

(** X5: a ColumnType operation renders
    ALTER TABLE <table> MODIFY <column> <formatted type>, and for one table,
    schema and column two types render the same text exactly when they format
    the same. *)
Theorem visit_column_type_spec compiler table_name schema column_name
    (type1 type2 : TypeEngine) :
  render (ColumnType table_name schema column_name type1) compiler =
    "ALTER TABLE " +:+ format_table_name compiler table_name schema
    +:+ " MODIFY " +:+ format_column_name compiler column_name
    +:+ " " +:+ format_type compiler type1
  ∧ (render (ColumnType table_name schema column_name type1) compiler =
     render (ColumnType table_name schema column_name type2) compiler
     ↔ format_type compiler type1 = format_type compiler type2).
Proof.
  split; render_norm; [done | by rewrite !append_cancel_iff].
Qed.

(** X6: a ColumnName operation renders
    ALTER TABLE <table> RENAME COLUMN <old> TO <new> with both column names
    formatted, and for one table, schema and old name two new names render the
    same text exactly when they format the same. *)
Theorem visit_column_name_spec compiler table_name schema column_name
    (newname1 newname2 : string) :
  render (ColumnName table_name schema column_name newname1) compiler =
    "ALTER TABLE " +:+ format_table_name compiler table_name schema
    +:+ " RENAME COLUMN " +:+ format_column_name compiler column_name
    +:+ " TO " +:+ format_column_name compiler newname1
  ∧ (render (ColumnName table_name schema column_name newname1) compiler =
     render (ColumnName table_name schema column_name newname2) compiler
     ↔ format_column_name compiler newname1 =
       format_column_name compiler newname2).
Proof.
  split; render_norm; [done | by rewrite !append_cancel_iff].
Qed.

(** X7: an AddColumn operation renders
    ALTER TABLE <table> ADD <column specification>, and for one table and
    schema two columns render the same text exactly when the compiler gives
    them the same specification. *)
Theorem visit_add_column_spec compiler table_name schema
    (column1 column2 : Column) :
  render (AddColumn table_name schema column1) compiler =
    "ALTER TABLE " +:+ format_table_name compiler table_name schema
    +:+ " ADD " +:+ get_column_specification compiler column1
  ∧ (render (AddColumn table_name schema column1) compiler =
     render (AddColumn table_name schema column2) compiler
     ↔ get_column_specification compiler column1 =
       get_column_specification compiler column2).
Proof.
  split; render_norm; [done | by rewrite !append_cancel_iff].
Qed.

End Visitors.

End RendererProperties.

(** ** Execution adapter: what a dispatch keeps, adds and returns *)

Module AdapterProperties.
Import Impl ImplFacts.

Section Adapter.
Context {CursorResult : Type}.
Implicit Types self : TiberoImpl CursorResult.

Lemma _exec_collaborators (statement : string) self :
  context_opts (snd (_exec statement self)) = context_opts self
  ∧ cursor (snd (_exec statement self)) = cursor self.
Proof.
  unfold _exec, DefaultImpl_exec.
  destruct (as_sql self) eqn:Hmode; simpl; rewrite Hmode; simpl; [| done].
  by destruct (truthy (batch_separator self)).
Qed.

Lemma dispatch_snoc (statements : list string) (statement : string) self :
  dispatch (statements ++ [statement]) self =
  snd (_exec statement (dispatch statements self)).
Proof. unfold dispatch. by rewrite foldl_app. Qed.

(** Dispatching a concatenation is dispatching the first part and then the
    second on the state the first one left. *)
Lemma dispatch_app (statements1 statements2 : list string) self :
  dispatch (statements1 ++ statements2) self =
  dispatch statements2 (dispatch statements1 self).
Proof. unfold dispatch. by rewrite foldl_app. Qed.

(** X9: no dispatch changes the profile: the mode, the transactional flag,
    the batch separator, the command terminator, the context options and the
    connection's behaviour are the same before and after. *)
Theorem dispatch_keeps_profile (statements : list string) self :
  as_sql (dispatch statements self) = as_sql self
  ∧ transactional_ddl (dispatch statements self) = transactional_ddl self
  ∧ batch_separator (dispatch statements self) = batch_separator self
  ∧ command_terminator (dispatch statements self) = command_terminator self
  ∧ context_opts (dispatch statements self) = context_opts self
  ∧ cursor (dispatch statements self) = cursor self.
Proof.
  destruct (dispatch_profile statements self) as (Hm & Hs & Ht & Hd).
  repeat split; try done.
  - clear Hm Hs Ht Hd. revert self.
    induction statements as [|s rest IH]; intros self; [done |].
    rewrite dispatch_cons, IH. apply _exec_collaborators.
  - clear Hm Hs Ht Hd. revert self.
    induction statements as [|s rest IH]; intros self; [done |].
    rewrite dispatch_cons, IH. apply _exec_collaborators.
Qed.

(** X10: a dispatch only appends.  What was in the output buffer and what had
    been sent to the connection stay in front; in script mode the buffer
    grows by one entry per statement, two with a non-empty separator, and the
    connection is sent nothing; in live mode the connection is sent one
    statement per statement and the buffer does not grow. *)
Theorem dispatch_growth (statements : list string) self :
  output_buffer self `prefix_of` output_buffer (dispatch statements self)
  ∧ connection self `prefix_of` connection (dispatch statements self)
  ∧ length (output_buffer (dispatch statements self)) =
    length (output_buffer self)
    + (if as_sql self
       then (if truthy (batch_separator self) then 2 else 1)
            * length statements
       else 0)
  ∧ length (connection (dispatch statements self)) =
    length (connection self)
    + (if as_sql self then 0 else length statements).
Proof.
  rewrite dispatch_output_buffer, dispatch_connection.
  destruct (as_sql self).
  - split; [by apply prefix_app_r |]. split; [done |].
    split; [| lia]. rewrite length_app. f_equal.
    unfold script_entries.
    induction statements as [|s rest IH]; [simpl; lia |].
    simpl flat_map. simpl length. rewrite length_app, IH.
    destruct (truthy (batch_separator self)); simpl; lia.
  - split; [done |]. split; [by apply prefix_app_r |].
    split; [lia |]. by rewrite length_app.
Qed.

(** X11: bracketing a dispatch by [emit_begin] and [emit_commit] is one
    dispatch of SET TRANSACTION READ WRITE, the statements, then COMMIT; in
    live mode the connection is sent exactly these, in this order. *)
Theorem emit_begin_dispatch_emit_commit (statements : list string) self :
  emit_commit (dispatch statements (emit_begin self)) =
    dispatch ("SET TRANSACTION READ WRITE" :: statements ++ ["COMMIT"]) self
  ∧ connection (emit_commit (dispatch statements (emit_begin self))) =
    (if as_sql self then connection self
     else connection self
          ++ "SET TRANSACTION READ WRITE" :: statements ++ ["COMMIT"])
  ∧ output_buffer (emit_commit (dispatch statements (emit_begin self))) =
    (if as_sql self
     then output_buffer self
          ++ script_entries self "SET TRANSACTION READ WRITE"
          ++ flat_map (script_entries self) statements
          ++ script_entries self "COMMIT"
     else output_buffer self).
Proof.
  assert (Heq : emit_commit (dispatch statements (emit_begin self)) =
    dispatch ("SET TRANSACTION READ WRITE" :: statements ++ ["COMMIT"]) self).
  { unfold emit_commit, emit_begin.
    by rewrite dispatch_cons, dispatch_snoc. }
  split; [done |]. rewrite Heq, dispatch_connection, dispatch_output_buffer.
  split; [done |]. destruct (as_sql self); [| done].
  f_equal. simpl flat_map. f_equal.
  by rewrite flat_map_app; simpl; rewrite app_nil_r.
Qed.

(** X13: in script mode every [_exec] of a dispatch returns [None]; in live
    mode the call for the i-th statement returns the connection's answer to
    that statement, given everything sent before the dispatch followed by the
    first i statements of it. *)
Theorem dispatch_results_spec (statements : list string) self :
  dispatch_results statements self =
  if as_sql self then replicate (length statements) None
  else imap (λ i statement,
               Some (cursor self (connection self ++ take i statements)
                       statement))
         statements.
Proof.
  revert self. induction statements as [|s rest IH]; intros self.
  - simpl. by destruct (as_sql self).
  - simpl dispatch_results.
    destruct (_exec s self) as [result self'] eqn:Hexec.
    pose proof (_exec_result s self) as Hres.
    pose proof (_exec_connection s self) as Hconn.
    destruct (_exec_profile s self) as (Hmode & _).
    destruct (_exec_collaborators s self) as (_ & Hcur).
    rewrite Hexec in Hres, Hconn, Hmode, Hcur. simpl in *.
    rewrite IH, Hmode, Hres. destruct (as_sql self); [done |].
    rewrite Hcur, Hconn. simpl. rewrite app_nil_r. f_equal.
    apply imap_ext. intros i x _. simpl. by rewrite <- app_assoc.
Qed.

End Adapter.

End AdapterProperties.
